(** * Finance formulas: a shallow embedding of [finance_formulas.py]

    The library is a flat set of pure Python 3 functions over numbers.  Two
    embeddings keep the shape of the source.

    The first reads the formulas over exact numbers:

    - a Python [float] (and an [int] used as a monetary amount or a rate) is
      a real number, so rounding and overflow are outside it;
    - a period count, documented as [int], is a [Z];
    - an exception is an explicit [Raise]: every function returns a
      [result], and the operands of an expression are evaluated in Python's
      order (left to right) through [bind];
    - [/] is Python 3 true division, [**] follows [float.__pow__], and
      [math.sqrt] rejects a negative argument.

    It carries the properties that hold of the code as they are stated:
    those whose conditions and results involve no rounding.

    The second, [Binary64], reads the same expressions over binary64 floats
    with the operations of IEEE 754.  It carries the inputs on which
    rounding, overflow or underflow decide the outcome, and what remains
    true of the code there. *)

From Stdlib Require Import Floats.
From Stdlib Require Import Reals Lra Lia ZArith List Permutation Bool.
Import ListNotations.

Open Scope R_scope.

(** ** The Python runtime the formulas rely on *)

Module Py.

(** The two exceptions the arithmetic of the library can raise. *)
Inductive exn : Set :=
| ZeroDivisionError
| ValueError.

(** The outcome of evaluating an expression: a value or a raised exception. *)
Inductive result (A : Type) : Type :=
| Ok (v : A)
| Raise (e : exn).

Arguments Ok {A} v.
Arguments Raise {A} e.

Definition bind {A B : Type} (m : result A) (k : A -> result B) : result B :=
  match m with
  | Ok v => k v
  | Raise e => Raise e
  end.

(** A number as [**] may return it: a float, or a complex number when a
    negative float is raised to a non-integral power. *)
Inductive number : Type :=
| Float (x : R)
| Complex (re im : R).

(** [x / y]: true division raises [ZeroDivisionError] on a zero divisor. *)
Definition truediv (x y : R) : result R :=
  if Req_dec_T y 0 then Raise ZeroDivisionError else Ok (x / y).

(** [x ** n] for an [int] exponent [n]: zero to a negative power raises
    [ZeroDivisionError], [x ** 0] is [1] for every [x]. *)
Definition pow_int (x : R) (n : Z) : result R :=
  if Req_dec_T x 0 then
    if (n <? 0)%Z then Raise ZeroDivisionError else Ok (powerRZ x n)
  else Ok (powerRZ x n).

(** Whether a float holds an integral value ([y == floor(y)]). *)
Definition is_integral (y : R) : Prop := y = IZR (Int_part y).

Definition is_integral_dec (y : R) : {is_integral y} + {~ is_integral y} :=
  Req_dec_T y (IZR (Int_part y)).

(** [x ** y] for a [float] exponent [y], after [float_pow]: [x ** 0.0] is
    [1.0]; [0.0] to a negative power raises; a negative base with a
    non-integral exponent is handed to the complex power, which returns
    [|x|**y * (cos (pi*y) + i sin (pi*y))]. *)
Definition float_pow (x y : R) : result number :=
  if Req_dec_T y 0 then Ok (Float 1)
  else if Req_dec_T x 0 then
    if Rlt_dec y 0 then Raise ZeroDivisionError else Ok (Float 0)
  else if Rlt_dec x 0 then
    if is_integral_dec y then Ok (Float (powerRZ x (Int_part y)))
    else Ok (Complex (Rpower (- x) y * cos (PI * y))
                     (Rpower (- x) y * sin (PI * y)))
  else Ok (Float (Rpower x y)).

(** [z - c] for a number [z] and a real constant [c]. *)
Definition number_sub (z : number) (c : R) : number :=
  match z with
  | Float x => Float (x - c)
  | Complex re im => Complex (re - c) im
  end.

(** [math.sqrt]: a negative argument raises [ValueError] (math domain error). *)
Definition math_sqrt (x : R) : result R :=
  if Rlt_dec x 0 then Raise ValueError else Ok (sqrt x).

(** The built-in [sum]: starts from [0] and adds from the left. *)
Definition sum (l : list R) : R := fold_left Rplus l 0.

(** [enumerate(l, start)]: the elements paired with their index. *)
Fixpoint enumerate_from (start : Z) (l : list R) : list (Z * R) :=
  match l with
  | [] => []
  | x :: rest => (start, x) :: enumerate_from (start + 1) rest
  end.

Definition enumerate (l : list R) : list (Z * R) := enumerate_from 0 l.

(** A list comprehension [[f x for x in l]]: the elements are computed in
    order and the first exception ends the comprehension. *)
Fixpoint comprehension {A B : Type} (f : A -> result B) (l : list A)
  : result (list B) :=
  match l with
  | [] => Ok []
  | x :: rest =>
      bind (f x) (fun y =>
      bind (comprehension f rest) (fun ys => Ok (y :: ys)))
  end.

End Py.

Import Py.

Notation "x <- m ;; k" := (bind m (fun x => k))
  (at level 61, m at next level, right associativity).

(** ** The formulas, in the order of the source *)

Definition compounding_present_value
  (FV r : R) (n : Z) (compounding_frequency : R) (payment_at_beginning : bool)
  : result R :=
  if payment_at_beginning then
    q <- truediv r compounding_frequency ;;
    p <- pow_int (1 + q) n ;;
    truediv FV p
  else
    q <- truediv r compounding_frequency ;;
    p <- pow_int (1 + q) n ;;
    truediv FV p.

Definition annuity_present_value (PMT r : R) (n : Z) (annuity_due : bool)
  : result R :=
  if annuity_due then
    p <- pow_int (1 + r) (- n) ;;
    q <- truediv (1 - p) r ;;
    Ok (PMT * q * (1 + r))
  else
    p <- pow_int (1 + r) (- n) ;;
    q <- truediv (1 - p) r ;;
    Ok (PMT * q).

Definition compounding_future_value
  (PV r : R) (n : Z) (compounding_frequency : R) (payment_at_beginning : bool)
  : result R :=
  if payment_at_beginning then
    q <- truediv r compounding_frequency ;;
    p <- pow_int (1 + q) n ;;
    Ok (PV * p)
  else
    q <- truediv r compounding_frequency ;;
    p <- pow_int (1 + q) n ;;
    Ok (PV * p).

Definition annuity_future_value (PMT r : R) (n : Z) (annuity_due : bool)
  : result R :=
  if annuity_due then
    p <- pow_int (1 + r) n ;;
    q <- truediv (p - 1) r ;;
    Ok (PMT * q * (1 + r))
  else
    p <- pow_int (1 + r) n ;;
    q <- truediv (p - 1) r ;;
    Ok (PMT * q).

Definition perpetuity_present_value (PMT r : R) : result R :=
  truediv PMT r.

Definition npv_uneven_cash_flows (rate : R) (cash_flows : list R) : result R :=
  terms <- comprehension
             (fun '(n, cf) => p <- pow_int (1 + rate) n ;; truediv cf p)
             (enumerate cash_flows) ;;
  Ok (sum terms).

Definition future_value_uneven_cash_flows (rate : R) (cash_flows : list R)
  : result R :=
  terms <- comprehension
             (fun '(n, cf) => p <- pow_int (1 + rate) n ;; Ok (cf * p))
             (enumerate cash_flows) ;;
  Ok (sum terms).

Definition annuity_payment (PV r : R) (n : Z) (annuity_due : bool) : result R :=
  if annuity_due then
    p <- pow_int (1 + r) (- n) ;;
    q <- truediv r (1 - p) ;;
    truediv (PV * q) (1 + r)
  else
    p <- pow_int (1 + r) (- n) ;;
    q <- truediv r (1 - p) ;;
    Ok (PV * q).

Definition annuity_payment_from_future_value
  (FV r : R) (n : Z) (annuity_due : bool) : result R :=
  if annuity_due then
    p <- pow_int (1 + r) n ;;
    truediv (FV * r) ((1 + r) * (p - 1))
  else
    p <- pow_int (1 + r) n ;;
    truediv (FV * r) (p - 1).

Definition holding_period_return (initial_price final_price dividends : R)
  : result R :=
  truediv (final_price - initial_price + dividends) initial_price.

(** The [for] loop of [time_weighted_rate_of_return], with its accumulator. *)
Fixpoint twrr_loop (placeholder : R) (sub_period_returns : list R) : result R :=
  match sub_period_returns with
  | [] => Ok placeholder
  | i :: rest =>
      s <- math_sqrt (1 + i) ;;
      twrr_loop (placeholder * s) rest
  end.

Definition time_weighted_rate_of_return (sub_period_returns : list R)
  : result R :=
  placeholder <- twrr_loop 1 sub_period_returns ;;
  Ok (placeholder - 1).

Definition bank_discount_yield (cost face_value days_to_maturity : R)
  : result R :=
  d <- truediv (face_value - cost) face_value ;;
  y <- truediv 360 days_to_maturity ;;
  Ok (d * y).

Definition holding_period_yield (initial_investment final_investment income : R)
  : result R :=
  truediv (final_investment + income - initial_investment) initial_investment.

Definition effective_annual_yield
  (initial_investment final_investment income days_to_maturity : R)
  : result number :=
  q <- truediv (final_investment + income - initial_investment)
               initial_investment ;;
  e <- truediv 365 days_to_maturity ;;
  p <- float_pow (1 + q) e ;;
  Ok (number_sub p 1).

Definition money_market_yield
  (initial_investment final_investment days_to_maturity income : R)
  : result R :=
  q <- truediv (final_investment + income - initial_investment)
               initial_investment ;;
  y <- truediv 360 days_to_maturity ;;
  Ok (q * y).

(** ** Reference definitions the formulas are compared with *)

(** The product of [sqrt (1 + r)] over the elements [r] of a sequence. *)
Definition sqrt_product (l : list R) : R :=
  fold_right Rmult 1 (map (fun r => sqrt (1 + r)) l).

(** Every factor [1 + r] of a sequence has a real square root. *)
Definition sqrt_defined (l : list R) : Prop := Forall (fun r => 0 <= 1 + r) l.

(** The sum over the 0-based index [n] of [cash_flows[n] / (1 + rate)^n]. *)
Definition discounted_sum (rate : R) (cash_flows : list R) : R :=
  fold_right Rplus 0
    (map (fun n => nth n cash_flows 0 / (1 + rate) ^ n)
         (seq 0 (length cash_flows))).


(** The base and the exponent of the power in [effective_annual_yield]. *)
Definition eay_base (initial_investment final_investment income : R) : R :=
  1 + (final_investment + income - initial_investment) / initial_investment.

Definition eay_exponent (days_to_maturity : R) : R := 365 / days_to_maturity.

(** The sum over the 0-based index [n] of [cash_flows[n] * (1 + rate)^n]. *)
Definition compounded_sum (rate : R) (cash_flows : list R) : R :=
  fold_right Rplus 0
    (map (fun n => nth n cash_flows 0 * (1 + rate) ^ n)
         (seq 0 (length cash_flows))).

(** ** The formulas over binary64

    The second embedding keeps the numbers of the code: a Python [float] is
    a binary64 value with the operations of IEEE 754, an [int] exponent is
    a [Z] converted to a float as [float.__pow__] does, and [OverflowError]
    joins the exceptions.  What the interpreter takes from outside is a
    parameter: the C library's [pow], [cos] and [sin], and the algorithm of
    the built-in [sum] on a non-empty list, which differs between Python
    versions. *)

Module Binary64.

#[local] Set Warnings "-inexact-float".
Local Open Scope float_scope.

Inductive exn : Set :=
| ZeroDivisionError
| ValueError
| OverflowError.

Inductive result (A : Type) : Type :=
| Ok (v : A)
| Raise (e : exn).

Arguments Ok {A} v.
Arguments Raise {A} e.

Definition bind {A B : Type} (m : result A) (k : A -> result B) : result B :=
  match m with
  | Ok v => k v
  | Raise e => Raise e
  end.

Notation "x <~ m ;; k" := (bind m (fun x => k))
  (at level 61, m at next level, right associativity).

(** A float or a complex number, as [**] may return it. *)
Inductive number : Type :=
| Float (x : float)
| Complex (re im : float).


(** [x / y] on floats: a zero divisor, of either sign, raises. *)
Definition truediv (x y : float) : result float :=
  if y =? 0 then Raise ZeroDivisionError else Ok (x / y).

(** Conversion of an [int] to a float: to the nearest float, ties to even;
    an [int] beyond the range of binary64 raises [OverflowError]. *)
Definition float_of_int (n : Z) : result float :=
  let f := SF2Prim (binary_normalize prec emax n 0 false) in
  if PrimFloat.is_infinity f then Raise OverflowError else Ok f.

(** [y == floor(y)] and [fmod(fabs(y), 2.0) == 1.0], read off the mantissa
    and the exponent of [y]. *)
Definition float_is_integer (y : float) : bool :=
  match Prim2SF y with
  | S754_zero _ => true
  | S754_infinity _ => true
  | S754_nan => false
  | S754_finite _ m e =>
      if (0 <=? e)%Z then true else (Z.pos m mod 2 ^ (- e) =? 0)%Z
  end.

Definition float_is_odd_integer (y : float) : bool :=
  match Prim2SF y with
  | S754_finite _ m e =>
      if (0 <? e)%Z then false
      else ((Z.pos m mod 2 ^ (- e) =? 0) && Z.odd (Z.pos m / 2 ^ (- e)))%Z
  | _ => false
  end.

(** [math.pi], the float that [atan2(0.0, x)] returns for a negative [x]. *)
Definition pi : float := 0x1.921fb54442d18p+1.

Section Runtime.

(** The C library, and the built-in [sum] on a non-empty list. *)
Variable c_pow : float -> float -> float.
Variables c_cos c_sin : float -> float.
Variable builtin_sum : list float -> float.

(** [float.__pow__] outside its complex branch: the special cases are
    settled before the C library is called, and an infinite result of
    [pow] raises [OverflowError]. *)
Definition real_pow (iv iw : float) : result float :=
  if iw =? 0 then Ok 1
  else if PrimFloat.is_nan iv then Ok iv
  else if PrimFloat.is_nan iw then Ok (if iv =? 1 then 1 else iw)
  else if PrimFloat.is_infinity iw then
    if PrimFloat.abs iv =? 1 then Ok 1
    else if Bool.eqb (0 <? iw) (1 <? PrimFloat.abs iv) then Ok (PrimFloat.abs iw)
    else Ok 0
  else if PrimFloat.is_infinity iv then
    if 0 <? iw
    then Ok (if float_is_odd_integer iw then iv else PrimFloat.abs iv)
    else Ok (if float_is_odd_integer iw
             then (if iv <? 0 then -0 else 0) else 0)
  else if iv =? 0 then
    if iw <? 0 then Raise ZeroDivisionError
    else Ok (if float_is_odd_integer iw then iv else 0)
  else
    let negate_result := (iv <? 0) && float_is_odd_integer iw in
    let iv := if iv <? 0 then - iv else iv in
    if iv =? 1 then Ok (if negate_result then -1 else 1)
    else
      let ix := c_pow iv iw in
      if PrimFloat.is_infinity ix then Raise OverflowError
      else Ok (if negate_result then - ix else ix).

(** The complex power of a negative float [iv] by a float [iw]:
    [|iv|**iw * (cos (pi*iw) + i sin (pi*iw))]; an infinite component
    raises [OverflowError]. *)
Definition complex_pow (iv iw : float) : result number :=
  let len := c_pow (PrimFloat.abs iv) iw in
  let phase := pi * iw in
  let re := len * c_cos phase in
  let im := len * c_sin phase in
  if PrimFloat.is_infinity re || PrimFloat.is_infinity im then Raise OverflowError
  else Ok (Complex re im).

(** Whether [float.__pow__] hands [iv ** iw] to the complex power: a
    finite negative base and a finite exponent that is not an integer. *)
Definition takes_complex_branch (iv iw : float) : bool :=
  negb (iw =? 0) && negb (PrimFloat.is_nan iv) && negb (PrimFloat.is_nan iw)
  && negb (PrimFloat.is_infinity iw) && negb (PrimFloat.is_infinity iv) && negb (iv =? 0)
  && (iv <? 0) && negb (float_is_integer iw).

(** [iv ** iw] for a float exponent. *)
Definition float_pow (iv iw : float) : result number :=
  if takes_complex_branch iv iw then complex_pow iv iw
  else x <~ real_pow iv iw ;; Ok (Float x).

(** [iv ** n] for an [int] exponent: the exponent is converted first, and
    its float is an integer, so the result is a float. *)
Definition pow_int (iv : float) (n : Z) : result float :=
  iw <~ float_of_int n ;;
  real_pow iv iw.

(** [z - 1]: a complex [z] and [1 + 0j] are subtracted component by
    component. *)
Definition number_sub_one (z : number) : number :=
  match z with
  | Float x => Float (x - 1)
  | Complex re im => Complex (re - 1) (im - 0)
  end.

(** [math.sqrt]: a negative argument raises [ValueError]. *)
Definition math_sqrt (x : float) : result float :=
  if x <? 0 then Raise ValueError else Ok (PrimFloat.sqrt x).

(** The built-in [sum]: [0] for the empty list. *)
Definition sum (l : list float) : float :=
  match l with
  | [] => 0
  | _ :: _ => builtin_sum l
  end.

Fixpoint enumerate_from (start : Z) (l : list float) : list (Z * float) :=
  match l with
  | [] => []
  | x :: rest => (start, x) :: enumerate_from (start + 1) rest
  end.

Definition enumerate (l : list float) : list (Z * float) :=
  enumerate_from 0 l.

Fixpoint comprehension {A B : Type} (f : A -> result B) (l : list A)
  : result (list B) :=
  match l with
  | [] => Ok []
  | x :: rest =>
      y <~ f x ;;
      ys <~ comprehension f rest ;;
      Ok (y :: ys)
  end.

Definition annuity_future_value (PMT r : float) (n : Z) (annuity_due : bool)
  : result float :=
  if annuity_due then
    p <~ pow_int (1 + r) n ;;
    q <~ truediv (p - 1) r ;;
    Ok (PMT * q * (1 + r))
  else
    p <~ pow_int (1 + r) n ;;
    q <~ truediv (p - 1) r ;;
    Ok (PMT * q).

Definition npv_uneven_cash_flows (rate : float) (cash_flows : list float)
  : result float :=
  terms <~ comprehension
             (fun '(n, cf) => p <~ pow_int (1 + rate) n ;; truediv cf p)
             (enumerate cash_flows) ;;
  Ok (sum terms).

Definition annuity_payment (PV r : float) (n : Z) (annuity_due : bool)
  : result float :=
  if annuity_due then
    p <~ pow_int (1 + r) (- n) ;;
    q <~ truediv r (1 - p) ;;
    truediv (PV * q) (1 + r)
  else
    p <~ pow_int (1 + r) (- n) ;;
    q <~ truediv r (1 - p) ;;
    Ok (PV * q).

Definition annuity_payment_from_future_value
  (FV r : float) (n : Z) (annuity_due : bool) : result float :=
  if annuity_due then
    p <~ pow_int (1 + r) n ;;
    truediv (FV * r) ((1 + r) * (p - 1))
  else
    p <~ pow_int (1 + r) n ;;
    truediv (FV * r) (p - 1).

Definition holding_period_return
  (initial_price final_price dividends : float) : result float :=
  truediv (final_price - initial_price + dividends) initial_price.

Fixpoint twrr_loop (placeholder : float) (sub_period_returns : list float)
  : result float :=
  match sub_period_returns with
  | [] => Ok placeholder
  | i :: rest =>
      s <~ math_sqrt (1 + i) ;;
      twrr_loop (placeholder * s) rest
  end.

(** Whether [math.sqrt] rejects a factor [1 + i] of the sequence. *)
Definition rejects_sqrt (sub_period_returns : list float) : bool :=
  existsb (fun i => 1 + i <? 0) sub_period_returns.

Definition time_weighted_rate_of_return (sub_period_returns : list float)
  : result float :=
  placeholder <~ twrr_loop 1 sub_period_returns ;;
  Ok (placeholder - 1).

Definition holding_period_yield
  (initial_investment final_investment income : float) : result float :=
  truediv (final_investment + income - initial_investment) initial_investment.

(** The base and the exponent of the power in [effective_annual_yield], as
    the code computes them. *)
Definition eay_base (initial_investment final_investment income : float)
  : float :=
  1 + (final_investment + income - initial_investment) / initial_investment.

Definition eay_exponent (days_to_maturity : float) : float :=
  365 / days_to_maturity.

Definition effective_annual_yield
  (initial_investment final_investment income days_to_maturity : float)
  : result number :=
  q <~ truediv (final_investment + income - initial_investment)
               initial_investment ;;
  e <~ truediv 365 days_to_maturity ;;
  p <~ float_pow (1 + q) e ;;
  Ok (number_sub_one p).

End Runtime.

(** A C library [pow] for the examples: the correctly rounded power, for an
    exponent that is an integer; other exponents are not needed there. *)
Definition float_to_Z (y : float) : Z :=
  match Prim2SF y with
  | S754_finite s m e =>
      let v := if (0 <=? e)%Z then (Z.pos m * 2 ^ e)%Z
               else (Z.pos m / 2 ^ (- e))%Z in
      if s then (- v)%Z else v
  | _ => 0%Z
  end.

Definition integral_pow (x y : float) : float :=
  match Prim2SF x with
  | S754_finite _ m e =>
      if float_is_integer y then
        let n := float_to_Z y in
        if (0 <=? n)%Z then
          SF2Prim (binary_normalize prec emax (Z.pos m ^ n) (e * n) false)
        else
          let '(q, e', l) :=
            SFdiv_core_binary prec emax 1 0 (Z.pos m ^ (- n)) (e * (- n)) in
          SF2Prim (binary_round_aux prec emax false q e' l)
      else PrimFloat.nan
  | _ => PrimFloat.nan
  end.


End Binary64.

(** ** Facts about the runtime *)

Lemma truediv_ok (x y : R) : y <> 0 -> truediv x y = Ok (x / y).
Proof.
  intros Hy. unfold truediv.
  destruct (Req_dec_T y 0) as [E | _]; [contradiction | reflexivity].
Qed.

Lemma truediv_zero (x : R) : truediv x 0 = Raise ZeroDivisionError.
Proof.
  unfold truediv.
  destruct (Req_dec_T 0 0) as [_ | N]; [reflexivity | now elim N].
Qed.

Lemma pow_int_nonzero (x : R) (n : Z) :
  x <> 0 -> pow_int x n = Ok (powerRZ x n).
Proof.
  intros Hx. unfold pow_int.
  destruct (Req_dec_T x 0) as [E | _]; [contradiction | reflexivity].
Qed.

Lemma pow_int_nonneg (x : R) (n : Z) :
  (0 <= n)%Z -> pow_int x n = Ok (powerRZ x n).
Proof.
  intros Hn. unfold pow_int.
  destruct (Req_dec_T x 0) as [_ | _]; [ | reflexivity].
  destruct (Z.ltb_spec n 0) as [L | _]; [lia | reflexivity].
Qed.

Lemma pow_int_zero_neg (n : Z) :
  (n < 0)%Z -> pow_int 0 n = Raise ZeroDivisionError.
Proof.
  intros Hn. unfold pow_int.
  destruct (Req_dec_T 0 0) as [_ | N]; [ | now elim N].
  destruct (Z.ltb_spec n 0) as [_ | G]; [reflexivity | lia].
Qed.

Lemma pow_int_defined (x : R) (n : Z) :
  x <> 0 \/ (0 <= n)%Z -> pow_int x n = Ok (powerRZ x n).
Proof.
  intros [Hx | Hn]; [now apply pow_int_nonzero | now apply pow_int_nonneg].
Qed.

Lemma math_sqrt_ok (x : R) : 0 <= x -> math_sqrt x = Ok (sqrt x).
Proof.
  intros Hx. unfold math_sqrt.
  destruct (Rlt_dec x 0) as [L | _]; [lra | reflexivity].
Qed.

Lemma math_sqrt_neg (x : R) : x < 0 -> math_sqrt x = Raise ValueError.
Proof.
  intros Hx. unfold math_sqrt.
  destruct (Rlt_dec x 0) as [_ | G]; [reflexivity | contradiction].
Qed.

(** ** The compounding conversions *)

(** C1: for every amount, rate, period count and compounding frequency,
    [compounding_present_value] returns the same outcome for both values of
    [payment_at_beginning], and so does [compounding_future_value]: the flag
    has no effect on either result. *)
Theorem payment_at_beginning_has_no_effect :
  forall (X r : R) (n : Z) (compounding_frequency : R) (flag flag' : bool),
    compounding_present_value X r n compounding_frequency flag
      = compounding_present_value X r n compounding_frequency flag'
    /\ compounding_future_value X r n compounding_frequency flag
      = compounding_future_value X r n compounding_frequency flag'.
Proof.
  intros X r n f flag flag'.
  destruct flag, flag'; split; reflexivity.
Qed.







(** ** Annuities and the perpetuity *)



(** C9: [perpetuity_present_value] returns [PMT / r] for every [r <> 0];
    at [r = 0] it returns nothing and the [ZeroDivisionError] of the
    division reaches the caller. *)
Theorem perpetuity_present_value_spec (PMT r : R) :
  (r <> 0 -> perpetuity_present_value PMT r = Ok (PMT / r))
  /\ (r = 0 -> perpetuity_present_value PMT r = Raise ZeroDivisionError).
Proof.
  unfold perpetuity_present_value. split.
  - apply truediv_ok.
  - intros ->. apply truediv_zero.
Qed.

Lemma perpetuity_present_value_witness :
  perpetuity_present_value 100 (5 / 100) = Ok 2000
  /\ perpetuity_present_value 100 0 = Raise ZeroDivisionError.
Proof.
  split.
  - replace 2000 with (100 / (5 / 100)) by field.
    apply (perpetuity_present_value_spec 100 (5 / 100)). lra.
  - now apply (perpetuity_present_value_spec 100 0).
Defined.

(** ** The time-weighted rate of return *)

Section TimeWeighted.

(** The loop multiplies its accumulator by the product of the roots. *)
Lemma twrr_loop_product (l : list R) :
  sqrt_defined l ->
  forall placeholder : R,
    twrr_loop placeholder l = Ok (placeholder * sqrt_product l).
Proof.
  induction 1 as [ | i rest Hi _ IH]; intros placeholder.
  - cbn. f_equal. ring.
  - cbn [twrr_loop]. rewrite math_sqrt_ok by assumption. cbn [bind].
    rewrite IH. f_equal. unfold sqrt_product. cbn. ring.
Qed.

(** The loop stops with [ValueError] at the first negative factor, whatever
    the accumulator holds. *)
Lemma twrr_loop_raises (l : list R) :
  ~ sqrt_defined l ->
  forall placeholder : R, twrr_loop placeholder l = Raise ValueError.
Proof.
  induction l as [ | i rest IH]; intros Hbad placeholder.
  - elim Hbad. constructor.
  - cbn [twrr_loop]. destruct (Rlt_dec (1 + i) 0) as [Hneg | Hpos].
    + now rewrite math_sqrt_neg.
    + rewrite math_sqrt_ok by lra. cbn [bind]. apply IH.
      intros Hrest. apply Hbad. constructor; [lra | assumption].
Qed.

End TimeWeighted.

(** C4: for every sequence whose elements [r] all satisfy [1 + r >= 0],
    [time_weighted_rate_of_return] returns the product of the [sqrt (1 + r)]
    minus [1]; for the empty sequence the product is [1] and the result [0]. *)
Theorem time_weighted_rate_of_return_product :
  (forall l : list R,
      sqrt_defined l ->
      time_weighted_rate_of_return l = Ok (sqrt_product l - 1))
  /\ sqrt_product [] = 1
  /\ time_weighted_rate_of_return [] = Ok 0.
Proof.
  split; [ | split].
  - intros l Hl. unfold time_weighted_rate_of_return.
    rewrite twrr_loop_product by assumption. cbn [bind].
    f_equal. ring.
  - reflexivity.
  - unfold time_weighted_rate_of_return. cbn. f_equal. ring.
Qed.

Lemma time_weighted_rate_of_return_witness :
  time_weighted_rate_of_return [3; 0] = Ok (sqrt_product [3; 0] - 1)
  /\ time_weighted_rate_of_return [] = Ok 0.
Proof.
  split.
  - apply (proj1 time_weighted_rate_of_return_product [3; 0]).
    repeat constructor; lra.
  - apply (proj2 (proj2 time_weighted_rate_of_return_product)).
Defined.

(** ** Net present value of uneven cash flows *)

Section Discounting.

Variable rate : R.
Hypothesis rate_ok : 1 + rate <> 0.

(** The comprehension over [enumerate] yields the discounted cash flows,
    index by index. *)
Lemma comprehension_discounted (cash_flows : list R) :
  forall k : nat,
    comprehension
      (fun '(n, cf) => p <- pow_int (1 + rate) n ;; truediv cf p)
      (enumerate_from (Z.of_nat k) cash_flows)
    = Ok (map (fun n => nth n cash_flows 0 / (1 + rate) ^ (k + n))
              (seq 0 (length cash_flows))).
Proof.
  induction cash_flows as [ | cf rest IH]; intros k.
  - reflexivity.
  - cbn [enumerate_from comprehension]. cbv beta iota.
    rewrite pow_int_nonzero by assumption. cbn [bind].
    rewrite <- pow_powerRZ, truediv_ok by now apply pow_nonzero.
    cbn [bind].
    replace (Z.of_nat k + 1)%Z with (Z.of_nat (S k)) by lia.
    rewrite IH. cbn [bind length seq map nth].
    rewrite Nat.add_0_r, <- seq_shift, map_map.
    do 2 f_equal. apply map_ext. intros n.
    now rewrite Nat.add_succ_r.
Qed.

End Discounting.

(** Adding from the left, as [sum] does, gives the sum of the list. *)
Lemma sum_fold_right (l : list R) : sum l = fold_right Rplus 0 l.
Proof.
  unfold sum. apply fold_symmetric; intros; ring.
Qed.

(** Over exact numbers, where no power overflows or underflows: with a
    usable rate [sum] adds the discounted cash flows. *)
Lemma npv_discounted (rate : R) (cash_flows : list R) :
  1 + rate <> 0 ->
  npv_uneven_cash_flows rate cash_flows = Ok (discounted_sum rate cash_flows).
Proof.
  intros Hrate. unfold npv_uneven_cash_flows, enumerate.
  change 0%Z with (Z.of_nat 0).
  rewrite (comprehension_discounted rate Hrate cash_flows 0).
  cbn [bind]. now rewrite sum_fold_right.
Qed.

(** ** The effective annual yield *)

(** An integer is integral. *)
Lemma is_integral_IZR (k : Z) : is_integral (IZR k).
Proof.
  unfold is_integral. f_equal.
  apply Int_part_spec. split; [lra | apply Rle_refl].
Qed.

(** A negative base with a non-integral exponent: [**] raises nothing and
    returns the complex power. *)
Lemma float_pow_negative_fractional (x y : R) :
  x < 0 -> ~ is_integral y ->
  float_pow x y
  = Ok (Complex (Rpower (- x) y * cos (PI * y)) (Rpower (- x) y * sin (PI * y))).
Proof.
  intros Hx Hy. unfold float_pow.
  destruct (Req_dec_T y 0) as [-> | _].
  - elim Hy. apply (is_integral_IZR 0).
  - destruct (Req_dec_T x 0) as [E | _]; [lra | ].
    destruct (Rlt_dec x 0) as [_ | G]; [ | contradiction].
    destruct (is_integral_dec y) as [I | _]; [contradiction | reflexivity].
Qed.

(** One half is not integral. *)
Lemma half_not_integral : ~ is_integral (365 / 730).
Proof.
  unfold is_integral. intros H.
  assert (E : IZR (2 * Int_part (365 / 730)) = IZR 1)
    by (rewrite mult_IZR; lra).
  apply eq_IZR in E. lia.
Qed.

(** C3, as stated, fails at [effective_annual_yield(100, -250, 0, 730)]:
    the base is [-5/2] and the exponent [1/2], yet the call raises nothing
    and returns the complex number [-1 + sqrt (5/2) i]. *)
Lemma effective_annual_yield_counterexample :
  eay_base 100 (-250) 0 < 0
  /\ ~ is_integral (eay_exponent 730)
  /\ effective_annual_yield 100 (-250) 0 730
     = Ok (Complex (-1) (sqrt (5 / 2)))
  /\ (forall e : exn, effective_annual_yield 100 (-250) 0 730 <> Raise e).
Proof.
  assert (Hb : eay_base 100 (-250) 0 = - (5 / 2)) by (unfold eay_base; field).
  assert (He : eay_exponent 730 = / 2) by (unfold eay_exponent; field).
  assert (Hi : ~ is_integral (eay_exponent 730)) by exact half_not_integral.
  assert (Hv : effective_annual_yield 100 (-250) 0 730
               = Ok (Complex (-1) (sqrt (5 / 2)))).
  { unfold effective_annual_yield.
    rewrite !truediv_ok by lra. cbn [bind].
    fold (eay_base 100 (-250) 0) (eay_exponent 730).
    rewrite float_pow_negative_fractional by (rewrite ?Hb; trivial; lra).
    rewrite Hb, He. cbn [bind number_sub].
    replace (PI * / 2) with (PI / 2) by reflexivity.
    rewrite cos_PI2, sin_PI2, Ropp_involutive, Rpower_sqrt by lra.
    do 2 f_equal; ring. }
  repeat split.
  - rewrite Hb. lra.
  - exact Hi.
  - exact Hv.
  - intros e. rewrite Hv. discriminate.
Qed.

Lemma truediv_zero_eq (x y : R) :
  y = 0 -> truediv x y = Raise ZeroDivisionError.
Proof.
  intros ->. apply truediv_zero.
Qed.

Lemma powerRZ_zero_pos (n : Z) : (0 < n)%Z -> powerRZ 0 n = 0.
Proof.
  intros Hn. destruct n as [ | p | p]; try lia.
  cbn [powerRZ]. apply pow_i, Pos2Nat.is_pos.
Qed.

(** ** Further properties of the annuity formulas *)


(** With no period at all, the two value formulas return [0] for every
    non-zero rate, and the two payment formulas divide by zero for every
    rate. *)
Theorem annuity_zero_periods (X r : R) (annuity_due : bool) :
  (r <> 0 ->
   annuity_present_value X r 0 annuity_due = Ok 0
   /\ annuity_future_value X r 0 annuity_due = Ok 0)
  /\ annuity_payment X r 0 annuity_due = Raise ZeroDivisionError
  /\ annuity_payment_from_future_value X r 0 annuity_due
     = Raise ZeroDivisionError.
Proof.
  assert (Hone : pow_int (1 + r) 0 = Ok 1)
    by (now rewrite pow_int_nonneg by lia).
  unfold annuity_present_value, annuity_future_value, annuity_payment,
    annuity_payment_from_future_value.
  change (- 0)%Z with 0%Z. rewrite !Hone. cbn [bind].
  split; [intros Hr | split].
  - rewrite !truediv_ok by assumption.
    destruct annuity_due; cbn [bind]; split; f_equal; now field.
  - rewrite (truediv_zero_eq r (1 - 1)) by ring. now destruct annuity_due.
  - destruct annuity_due; apply truediv_zero_eq; ring.
Qed.

Lemma annuity_zero_periods_witness :
  (annuity_present_value 100 (5 / 100) 0 true = Ok 0
   /\ annuity_future_value 100 (5 / 100) 0 true = Ok 0)
  /\ annuity_payment 100 (5 / 100) 0 true = Raise ZeroDivisionError
  /\ annuity_payment_from_future_value 100 (5 / 100) 0 true
     = Raise ZeroDivisionError.
Proof.
  split.
  - apply (proj1 (annuity_zero_periods 100 (5 / 100) true)). lra.
  - apply (proj2 (annuity_zero_periods 100 (5 / 100) true)).
Defined.

(** ** Further properties of the cash-flow aggregations *)

Section Compounding.

Variable rate : R.

(** Over exact numbers the comprehension of
    [future_value_uneven_cash_flows] returns the compounded cash flows: its
    exponents are the indices, which are not negative. *)
Lemma comprehension_compounded (cash_flows : list R) :
  forall k : nat,
    comprehension
      (fun '(n, cf) => p <- pow_int (1 + rate) n ;; Ok (cf * p))
      (enumerate_from (Z.of_nat k) cash_flows)
    = Ok (map (fun n => nth n cash_flows 0 * (1 + rate) ^ (k + n))
              (seq 0 (length cash_flows))).
Proof.
  induction cash_flows as [ | cf rest IH]; intros k.
  - reflexivity.
  - cbn [enumerate_from comprehension]. cbv beta iota.
    rewrite pow_int_nonneg by lia. cbn [bind].
    rewrite <- pow_powerRZ.
    replace (Z.of_nat k + 1)%Z with (Z.of_nat (S k)) by lia.
    rewrite IH. cbn [bind length seq map nth].
    rewrite Nat.add_0_r, <- seq_shift, map_map.
    do 2 f_equal. apply map_ext. intros n.
    now rewrite Nat.add_succ_r.
Qed.

(** A sum of scaled terms is the scaled sum. *)
Lemma fold_right_Rplus_scale (f : nat -> R) (c : R) (l : list nat) :
  fold_right Rplus 0 (map (fun n => f n * c) l)
  = fold_right Rplus 0 (map f l) * c.
Proof.
  induction l as [ | n l IH]; cbn [map fold_right]; [ring | rewrite IH; ring].
Qed.

Lemma compounded_sum_cons (cf : R) (rest : list R) :
  compounded_sum rate (cf :: rest)
  = cf + (1 + rate) * compounded_sum rate rest.
Proof.
  unfold compounded_sum. cbn [length seq map fold_right nth pow].
  rewrite <- seq_shift, map_map. cbn [nth].
  rewrite (map_ext _ (fun n => nth n rest 0 * (1 + rate) ^ n * (1 + rate)))
    by (intros n; cbn [pow]; ring).
  rewrite fold_right_Rplus_scale. ring.
Qed.

Lemma discounted_sum_cons (cf : R) (rest : list R) :
  1 + rate <> 0 ->
  discounted_sum rate (cf :: rest)
  = cf + discounted_sum rate rest / (1 + rate).
Proof.
  intros Hrate. unfold discounted_sum.
  cbn [length seq map fold_right nth pow].
  rewrite <- seq_shift, map_map. cbn [nth].
  rewrite (map_ext _ (fun n => nth n rest 0 / (1 + rate) ^ n * / (1 + rate))).
  - rewrite fold_right_Rplus_scale. field. assumption.
  - intros n. cbn [pow]. field.
    repeat split; try assumption; now apply pow_nonzero.
Qed.

End Compounding.

Lemma fv_compounded (rate : R) (cash_flows : list R) :
  future_value_uneven_cash_flows rate cash_flows
  = Ok (compounded_sum rate cash_flows).
Proof.
  unfold future_value_uneven_cash_flows, enumerate.
  change 0%Z with (Z.of_nat 0).
  rewrite (comprehension_compounded rate cash_flows 0).
  cbn [bind]. now rewrite sum_fold_right.
Qed.

(** At a rate of [-1] the net present value exists for at most one cash
    flow: the empty sequence gives [0], a single cash flow is returned as it
    is, and a second cash flow divides by zero. *)
Theorem npv_uneven_cash_flows_zero_base (rate : R) :
  1 + rate = 0 ->
  npv_uneven_cash_flows rate [] = Ok 0
  /\ (forall cf : R, npv_uneven_cash_flows rate [cf] = Ok cf)
  /\ (forall (cf cf' : R) (rest : list R),
        npv_uneven_cash_flows rate (cf :: cf' :: rest)
        = Raise ZeroDivisionError).
Proof.
  intros Hrate. unfold npv_uneven_cash_flows, enumerate. rewrite Hrate.
  split; [reflexivity | split].
  - intros cf. cbn [enumerate_from comprehension]. cbv beta iota.
    rewrite pow_int_nonneg by lia. cbn [bind powerRZ].
    rewrite truediv_ok by lra. cbn [bind].
    f_equal. unfold sum. cbn. field.
  - intros cf cf' rest. cbn [enumerate_from comprehension]. cbv beta iota.
    rewrite !pow_int_nonneg by lia. cbn [bind].
    change (powerRZ 0 0) with 1. rewrite truediv_ok by lra. cbn [bind].
    now rewrite (truediv_zero_eq cf') by (apply powerRZ_zero_pos; lia).
Qed.

Lemma npv_uneven_cash_flows_zero_base_witness :
  npv_uneven_cash_flows (-1) [] = Ok 0
  /\ (forall cf : R, npv_uneven_cash_flows (-1) [cf] = Ok cf)
  /\ (forall (cf cf' : R) (rest : list R),
        npv_uneven_cash_flows (-1) (cf :: cf' :: rest)
        = Raise ZeroDivisionError).
Proof.
  apply (npv_uneven_cash_flows_zero_base (-1)). lra.
Defined.

(** At a zero rate both aggregations return the plain sum of the cash
    flows. *)
Theorem uneven_cash_flows_zero_rate (cash_flows : list R) :
  npv_uneven_cash_flows 0 cash_flows = Ok (fold_right Rplus 0 cash_flows)
  /\ future_value_uneven_cash_flows 0 cash_flows
     = Ok (fold_right Rplus 0 cash_flows).
Proof.
  rewrite npv_discounted by lra. rewrite fv_compounded.
  split; f_equal.
  - induction cash_flows as [ | cf rest IH]; [reflexivity | ].
    rewrite discounted_sum_cons, IH by lra. cbn [fold_right]. field.
  - induction cash_flows as [ | cf rest IH]; [reflexivity | ].
    rewrite compounded_sum_cons, IH. cbn [fold_right]. ring.
Qed.

(** ** Further properties of the time-weighted rate of return *)

(** Either every factor has a square root or one of them is negative. *)
Lemma sqrt_defined_or_negative (l : list R) :
  sqrt_defined l \/ Exists (fun r => 1 + r < 0) l.
Proof.
  induction l as [ | i rest [IH | IH]].
  - left. constructor.
  - destruct (Rlt_dec (1 + i) 0) as [L | G].
    + right. now constructor.
    + left. constructor; [lra | assumption].
  - right. now constructor 2.
Qed.

Lemma negative_not_sqrt_defined (l : list R) :
  Exists (fun r => 1 + r < 0) l -> ~ sqrt_defined l.
Proof.
  intros Hex Hall. unfold sqrt_defined in Hall.
  rewrite Forall_forall in Hall. rewrite Exists_exists in Hex.
  destruct Hex as [r [Hin Hneg]]. specialize (Hall r Hin). lra.
Qed.

(** [time_weighted_rate_of_return] raises [ValueError] exactly when some
    sub-period return is below [-1]; it raises nothing else. *)
Theorem time_weighted_rate_of_return_raises (l : list R) :
  (time_weighted_rate_of_return l = Raise ValueError
   <-> Exists (fun r => 1 + r < 0) l)
  /\ time_weighted_rate_of_return l <> Raise ZeroDivisionError.
Proof.
  unfold time_weighted_rate_of_return.
  destruct (sqrt_defined_or_negative l) as [Hall | Hex].
  - rewrite twrr_loop_product by assumption. cbn [bind].
    split; [split | discriminate].
    + discriminate.
    + intros Hex. now elim (negative_not_sqrt_defined l Hex).
  - rewrite twrr_loop_raises by now apply negative_not_sqrt_defined.
    cbn [bind]. split; [split; trivial | discriminate].
Qed.

(** ** Further properties of the yield conversions *)

(** The two discount-style yields raise [ZeroDivisionError] exactly when one
    of their divisors is zero: the face value or the days for the bank
    discount yield, the initial investment or the days for the money market
    yield. *)
Theorem discount_yields_raise (a b days income : R) :
  (bank_discount_yield a b days = Raise ZeroDivisionError
   <-> b = 0 \/ days = 0)
  /\ (money_market_yield a b days income = Raise ZeroDivisionError
      <-> a = 0 \/ days = 0).
Proof.
  unfold bank_discount_yield, money_market_yield. split.
  - destruct (Req_dec_T b 0) as [Hb | Hb].
    + rewrite truediv_zero_eq by assumption. cbn [bind]. tauto.
    + rewrite truediv_ok by assumption. cbn [bind].
      destruct (Req_dec_T days 0) as [Hd | Hd].
      * rewrite truediv_zero_eq by assumption. cbn [bind]. tauto.
      * rewrite truediv_ok by assumption. cbn [bind].
        split; [discriminate | tauto].
  - destruct (Req_dec_T a 0) as [Ha | Ha].
    + rewrite truediv_zero_eq by assumption. cbn [bind]. tauto.
    + rewrite truediv_ok by assumption. cbn [bind].
      destruct (Req_dec_T days 0) as [Hd | Hd].
      * rewrite truediv_zero_eq by assumption. cbn [bind]. tauto.
      * rewrite truediv_ok by assumption. cbn [bind].
        split; [discriminate | tauto].
Qed.

(** ** Properties over binary64 *)

Section Binary64Facts.

Import Binary64.
#[local] Set Warnings "-inexact-float".
Local Open Scope float_scope.

(** Two floats with different representations are different. *)
Lemma float_neq (x y : float) : Prim2SF x <> Prim2SF y -> x <> y.
Proof. intros H E. apply H. now rewrite E. Qed.

Lemma Ok_neq (x y : float) : Prim2SF x <> Prim2SF y -> Ok x <> Ok y.
Proof. intros H E. injection E. now apply float_neq. Qed.

Lemma truediv_nonzero (x y : float) :
  (y =? 0) = false -> truediv x y = Ok (x / y).
Proof. intros H. unfold truediv. now rewrite H. Qed.

Lemma truediv_by_zero (x y : float) :
  (y =? 0) = true -> truediv x y = Raise ZeroDivisionError.
Proof. intros H. unfold truediv. now rewrite H. Qed.


(** *** Holding-period return and yield *)

(** C10, as amended: [holding_period_return] and [holding_period_yield]
    raise [ZeroDivisionError] on the same arguments, those with a zero
    [a]; otherwise the first returns [(b - a + c) / a] and the second
    [(b + c - a) / a], each evaluated from the left in binary64, and the two
    results are equal whenever the two numerators are the same float. *)
Theorem holding_period_return_yield_outcomes (a b c : float) :
  (holding_period_return a b c = Raise ZeroDivisionError
   <-> (a =? 0) = true)
  /\ (holding_period_yield a b c = Raise ZeroDivisionError
      <-> (a =? 0) = true)
  /\ ((a =? 0) = false ->
      holding_period_return a b c = Ok ((b - a + c) / a)
      /\ holding_period_yield a b c = Ok ((b + c - a) / a))
  /\ (b - a + c = b + c - a ->
      holding_period_return a b c = holding_period_yield a b c).
Proof.
  unfold holding_period_return, holding_period_yield, truediv.
  destruct (a =? 0).
  - repeat split; trivial; discriminate.
  - repeat split; trivial; try discriminate.
    now intros ->.
Qed.

Lemma holding_period_return_yield_outcomes_witness :
  holding_period_return 100 110 5 = Ok ((110 - 100 + 5) / 100)
  /\ holding_period_yield 100 110 5 = Ok ((110 + 5 - 100) / 100)
  /\ holding_period_return 0 110 5 = Raise ZeroDivisionError.
Proof.
  destruct (holding_period_return_yield_outcomes 100 110 5)
    as [_ [_ [H _]]].
  destruct (holding_period_return_yield_outcomes 0 110 5) as [H0 _].
  split; [ | split].
  - now apply H.
  - now apply H.
  - now apply H0.
Defined.

(** C10, as stated, fails at [(1, 1e16, -1e16)]: the first argument is not
    zero, [holding_period_return] returns [0.0] ([1e16 - 1] rounds to
    [1e16]) and [holding_period_yield] returns [-1.0]. *)
Lemma holding_period_return_yield_counterexample :
  (1 =? 0) = false
  /\ holding_period_return 1 1e16 (-1e16) = Ok 0
  /\ holding_period_yield 1 1e16 (-1e16) = Ok (-1)
  /\ holding_period_return 1 1e16 (-1e16)
     <> holding_period_yield 1 1e16 (-1e16).
Proof.
  repeat split; try (vm_compute; reflexivity).
  vm_compute. apply Ok_neq. vm_compute. discriminate.
Qed.

(** *** The time-weighted rate of return *)

(** The loop raises [ValueError] when [math.sqrt] rejects a factor and
    returns a value otherwise, whatever the accumulator holds. *)
Lemma twrr_loop_outcome (l : list float) :
  forall placeholder : float,
    if rejects_sqrt l
    then twrr_loop placeholder l = Raise ValueError
    else exists v : float, twrr_loop placeholder l = Ok v.
Proof.
  induction l as [ | i rest IH]; intros placeholder.
  - cbn. now exists placeholder.
  - cbn [rejects_sqrt existsb twrr_loop]. unfold math_sqrt.
    destruct (1 + i <? 0); cbn [orb bind]; [reflexivity | apply IH].
Qed.

Lemma rejects_sqrt_permutation (l l' : list float) :
  Permutation l l' -> rejects_sqrt l = rejects_sqrt l'.
Proof.
  unfold rejects_sqrt.
  induction 1 as [ | i l l' _ IH | x y l | l l' l'' _ IH _ IH'];
    cbn [existsb].
  - reflexivity.
  - now rewrite IH.
  - now rewrite !orb_assoc, (orb_comm (1 + y <? 0)).
  - now rewrite IH.
Qed.

Lemma time_weighted_rate_of_return_outcome (l : list float) :
  if rejects_sqrt l
  then time_weighted_rate_of_return l = Raise ValueError
  else exists v : float, time_weighted_rate_of_return l = Ok v.
Proof.
  unfold time_weighted_rate_of_return.
  pose proof (twrr_loop_outcome l 1) as H.
  destruct (rejects_sqrt l).
  - now rewrite H.
  - destruct H as [p ->]. cbn [bind]. now exists (p - 1).
Qed.

(** C5, as amended: a sequence and any reordering of it have the same kind
    of outcome: either both calls raise [ValueError] (some [1 + r] is
    negative) or both return a value.  The two values are products of the
    same square roots taken in a different order. *)
Theorem time_weighted_rate_of_return_reordered (l l' : list float) :
  Permutation l l' ->
  (time_weighted_rate_of_return l = Raise ValueError
   /\ time_weighted_rate_of_return l' = Raise ValueError)
  \/ (exists v v' : float,
        time_weighted_rate_of_return l = Ok v
        /\ time_weighted_rate_of_return l' = Ok v').
Proof.
  intros Hperm.
  pose proof (time_weighted_rate_of_return_outcome l) as H.
  pose proof (time_weighted_rate_of_return_outcome l') as H'.
  rewrite <- (rejects_sqrt_permutation l l' Hperm) in H'.
  destruct (rejects_sqrt l).
  - left. now split.
  - right. destruct H as [v Hv], H' as [v' Hv']. now exists v, v'.
Qed.

Lemma time_weighted_rate_of_return_reordered_witness :
  (time_weighted_rate_of_return [2.375; -0.625; 2.125] = Raise ValueError
   /\ time_weighted_rate_of_return [2.125; 2.375; -0.625] = Raise ValueError)
  \/ (exists v v' : float,
        time_weighted_rate_of_return [2.375; -0.625; 2.125] = Ok v
        /\ time_weighted_rate_of_return [2.125; 2.375; -0.625] = Ok v').
Proof.
  apply (time_weighted_rate_of_return_reordered
           [2.375; -0.625; 2.125] [2.125; 2.375; -0.625]).
  apply Permutation_sym, (Permutation_cons_app [2.375; -0.625] []).
  reflexivity.
Defined.

(** C5, as stated, fails for [[2.375, -0.625, 2.125]] and its reordering
    [[2.125, 2.375, -0.625]]: the two products of square roots round
    differently. *)
Lemma time_weighted_rate_of_return_counterexample :
  Permutation [2.375; -0.625; 2.125] [2.125; 2.375; -0.625]
  /\ time_weighted_rate_of_return [2.375; -0.625; 2.125]
     = Ok 0.98873782208716499
  /\ time_weighted_rate_of_return [2.125; 2.375; -0.625]
     = Ok 0.98873782208716476
  /\ time_weighted_rate_of_return [2.375; -0.625; 2.125]
     <> time_weighted_rate_of_return [2.125; 2.375; -0.625].
Proof.
  repeat split; try (vm_compute; reflexivity).
  - apply Permutation_sym, (Permutation_cons_app [2.375; -0.625] []).
    reflexivity.
  - vm_compute. apply Ok_neq. vm_compute. discriminate.
Qed.

(** *** Facts about comparisons *)

Lemma Prim2SF_zero : Prim2SF 0 = S754_zero false.
Proof. reflexivity. Qed.

Lemma negative_not_zero (b : float) : (b <? 0) = true -> (b =? 0) = false.
Proof.
  rewrite FloatAxioms.ltb_spec, FloatAxioms.eqb_spec. unfold SFltb, SFeqb.
  now destruct (SFcompare (Prim2SF b) (Prim2SF 0)) as [[ | | ] | ].
Qed.

Lemma negative_not_nan (b : float) : (b <? 0) = true -> PrimFloat.is_nan b = false.
Proof.
  unfold PrimFloat.is_nan. rewrite FloatAxioms.ltb_spec, FloatAxioms.eqb_spec, Prim2SF_zero.
  unfold SFltb, SFeqb.
  destruct (Prim2SF b) as [s | s | | s m e]; cbn; try discriminate.
  - now destruct s.
  - destruct s; [ | discriminate]. intros _.
    now rewrite Z.compare_refl, Pcompare_refl.
Qed.

Lemma non_integer_not_zero (e : float) :
  float_is_integer e = false -> PrimFloat.is_nan e = false -> (e =? 0) = false.
Proof.
  unfold float_is_integer, PrimFloat.is_nan.
  rewrite !FloatAxioms.eqb_spec, Prim2SF_zero. unfold SFeqb.
  destruct (Prim2SF e) as [s | s | | s m x]; cbn; try discriminate.
  now destruct s.
Qed.

Lemma non_integer_not_infinite (e : float) :
  float_is_integer e = false -> PrimFloat.is_infinity e = false.
Proof.
  unfold float_is_integer, PrimFloat.is_infinity.
  rewrite FloatAxioms.eqb_spec, FloatAxioms.abs_spec. unfold SFeqb.
  now destruct (Prim2SF e) as [s | s | | s m x].
Qed.

(** *** The runtime: what [**] can raise *)

Variable c_pow : float -> float -> float.
Variables c_cos c_sin : float -> float.
Variable builtin_sum : list float -> float.



(** A finite negative base and an exponent that is a number but not an
    integer: [**] takes the complex branch. *)
Lemma negative_base_takes_complex_branch (b e : float) :
  (b <? 0) = true -> PrimFloat.is_infinity b = false ->
  PrimFloat.is_nan e = false -> float_is_integer e = false ->
  takes_complex_branch b e = true.
Proof.
  intros Hb Hbi Hen Hei. unfold takes_complex_branch.
  now rewrite (non_integer_not_zero e), (negative_not_nan b), Hen,
    (non_integer_not_infinite e), Hbi, (negative_not_zero b), Hb, Hei.
Qed.

(** *** Net present value *)




(** *** The payment of an annuity from its future value *)

(** C8, as amended: when the power [(1 + r)**n] evaluates to a float [p],
    [annuity_payment_from_future_value] returns [FV * r / (p - 1)] for an
    ordinary annuity and [FV * r / ((1 + r) * (p - 1))] for an annuity due,
    evaluated in binary64, and raises [ZeroDivisionError] when the divisor
    is zero, as it is when [p] rounds to [1]; when the power raises, both
    kinds raise with it. *)
Theorem annuity_payment_from_future_value_outcome (FV r : float) (n : Z) :
  (forall p : float,
      pow_int c_pow (1 + r) n = Ok p ->
      annuity_payment_from_future_value c_pow FV r n false
      = (if p - 1 =? 0 then Raise ZeroDivisionError
         else Ok (FV * r / (p - 1)))
      /\ annuity_payment_from_future_value c_pow FV r n true
         = (if (1 + r) * (p - 1) =? 0 then Raise ZeroDivisionError
            else Ok (FV * r / ((1 + r) * (p - 1)))))
  /\ (forall e : exn,
        pow_int c_pow (1 + r) n = Raise e ->
        annuity_payment_from_future_value c_pow FV r n false = Raise e
        /\ annuity_payment_from_future_value c_pow FV r n true = Raise e).
Proof.
  unfold annuity_payment_from_future_value, truediv. split.
  - intros p ->. cbn [bind]. split; reflexivity.
  - intros e ->. split; reflexivity.
Qed.

(** *** The effective annual yield *)

(** C3, as amended: when neither [initial_investment] nor
    [days_to_maturity] is zero, the base the code computes is a finite
    negative float and the exponent it computes is a number but not an
    integer, [effective_annual_yield] raises no [ValueError] and returns no
    float: it returns the complex number
    [|base|**e * (cos (pi*e) + i sin (pi*e)) - 1], computed in binary64, or
    raises [OverflowError] when a component of the complex power is
    infinite. *)
Theorem effective_annual_yield_negative_base
  (initial_investment final_investment income days_to_maturity : float) :
  (initial_investment =? 0) = false ->
  (days_to_maturity =? 0) = false ->
  (eay_base initial_investment final_investment income <? 0) = true ->
  PrimFloat.is_infinity (eay_base initial_investment final_investment income) = false ->
  PrimFloat.is_nan (eay_exponent days_to_maturity) = false ->
  float_is_integer (eay_exponent days_to_maturity) = false ->
  let b := eay_base initial_investment final_investment income in
  let e := eay_exponent days_to_maturity in
  let re := c_pow (PrimFloat.abs b) e * c_cos (pi * e) in
  let im := c_pow (PrimFloat.abs b) e * c_sin (pi * e) in
  effective_annual_yield c_pow c_cos c_sin
    initial_investment final_investment income days_to_maturity
  = (if PrimFloat.is_infinity re || PrimFloat.is_infinity im then Raise OverflowError
     else Ok (Complex (re - 1) (im - 0))).
Proof.
  intros Hi Hd Hb Hbi Hen Hei b e re im.
  unfold effective_annual_yield.
  rewrite !truediv_nonzero by assumption. cbn [bind].
  fold (eay_base initial_investment final_investment income)
       (eay_exponent days_to_maturity).
  fold b e. unfold float_pow.
  rewrite negative_base_takes_complex_branch by assumption.
  unfold complex_pow. fold re im.
  now destruct (PrimFloat.is_infinity re || PrimFloat.is_infinity im).
Qed.

(** *** The two kinds of annuity *)

(** For every payment, rate and period count, the annuity-due branch of
    [annuity_future_value] is the ordinary branch followed by one
    multiplication by [1 + r]: same exception, or the ordinary value times
    [1 + r] to the last bit. *)
Theorem annuity_future_value_due_is_ordinary_times
  (PMT r : float) (n : Z) :
  annuity_future_value c_pow PMT r n true
  = (v <~ annuity_future_value c_pow PMT r n false ;; Ok (v * (1 + r))).
Proof.
  unfold annuity_future_value.
  destruct (pow_int c_pow (1 + r) n) as [p | e]; cbn [bind]; [ | reflexivity].
  now destruct (truediv (p - 1) r).
Qed.

(** For every present value, rate and period count, the annuity-due branch
    of [annuity_payment] is the ordinary branch followed by one division by
    [1 + r]: same exception, or the ordinary value divided by [1 + r] to the
    last bit, with [ZeroDivisionError] when [1 + r] is zero. *)
Theorem annuity_payment_due_is_ordinary_divided
  (PV r : float) (n : Z) :
  annuity_payment c_pow PV r n true
  = (v <~ annuity_payment c_pow PV r n false ;; truediv v (1 + r)).
Proof.
  unfold annuity_payment.
  destruct (pow_int c_pow (1 + r) (- n)) as [p | e]; cbn [bind];
    [ | reflexivity].
  now destruct (truediv r (1 - p)).
Qed.

End Binary64Facts.

Section Binary64Examples.

Import Binary64.
#[local] Set Warnings "-inexact-float".
Local Open Scope float_scope.



Lemma annuity_payment_from_future_value_outcome_witness :
  annuity_payment_from_future_value integral_pow 1000 0.05 10 false
  = Ok (1000 * 0.05 / (1.628894626777442 - 1))
  /\ annuity_payment_from_future_value integral_pow 1000 0.05 10 true
     = Ok (1000 * 0.05 / ((1 + 0.05) * (1.628894626777442 - 1))).
Proof.
  apply (proj1 (annuity_payment_from_future_value_outcome
                  integral_pow 1000 0.05 10) 1.628894626777442).
  vm_compute. reflexivity.
Defined.

(** C8, as stated, fails at [(1000, 0.05, 10)], where [(1 + r)**n] is
    [1.628894626777442]: the annuity-due value is [75.7186428242444] and
    the ordinary value divided by [1 + r] is [75.71864282424438]; and at
    [(1000, 2**-60, 2)], where [(1 + r)^2] differs from [1] but [1 + r]
    rounds to [1.0], the ordinary call raises [ZeroDivisionError]. *)
Lemma annuity_payment_from_future_value_counterexample :
  pow_int integral_pow (1 + 0.05) 10 = Ok 1.628894626777442
  /\ annuity_payment_from_future_value integral_pow 1000 0.05 10 true
     = Ok 75.718642824244398
  /\ (v <~ annuity_payment_from_future_value integral_pow 1000 0.05 10 false ;;
      Ok (v / (1 + 0.05)))
     = Ok 75.718642824244384
  /\ Prim2SF 0x1p-60 = S754_finite false 4503599627370496 (-112)
  /\ annuity_payment_from_future_value integral_pow 1000 0x1p-60 2 false
     = Raise ZeroDivisionError.
Proof.
  repeat split; vm_compute; reflexivity.
Qed.

Lemma effective_annual_yield_negative_base_witness :
  eay_base 100 (-250) 0 = -2.5
  /\ eay_exponent 730 = 0.5
  /\ forall (c_pow : float -> float -> float) (c_cos c_sin : float -> float),
      let re := c_pow 2.5 0.5 * c_cos (pi * 0.5) in
      let im := c_pow 2.5 0.5 * c_sin (pi * 0.5) in
      effective_annual_yield c_pow c_cos c_sin 100 (-250) 0 730
      = (if PrimFloat.is_infinity re || PrimFloat.is_infinity im then Raise OverflowError
         else Ok (Complex (re - 1) (im - 0))).
Proof.
  split; [reflexivity | split; [reflexivity | ]].
  intros c_pow c_cos c_sin.
  apply (effective_annual_yield_negative_base
           c_pow c_cos c_sin 100 (-250) 0 730); reflexivity.
Defined.

End Binary64Examples.

(** ** Sample values *)

Example perpetuity_present_value_sample :
  perpetuity_present_value 100 (5 / 100) = Ok 2000.
Proof.
  unfold perpetuity_present_value. rewrite truediv_ok by lra.
  f_equal. field.
Qed.

Example holding_period_return_sample :
  holding_period_return 100 110 5 = Ok (15 / 100).
Proof.
  unfold holding_period_return. rewrite truediv_ok by lra.
  f_equal. field.
Qed.

Example bank_discount_yield_sample :
  bank_discount_yield 98 100 90 = Ok (8 / 100).
Proof.
  unfold bank_discount_yield. rewrite !truediv_ok by lra. cbn [bind].
  f_equal. field.
Qed.

